(** * go-xattr: the portable facade over the extended-attribute system calls

    A shallow embedding of [xattr.go] and of the two platform files that
    define [isNotExist] ([xattr_darwin.go] and the ENODATA build).

    - Go byte slices are [slice byte]: the nil slice is kept apart from an
      empty, non-nil one, since [Get] returns both.
    - Go strings are byte sequences; [string(b)] is [string_of_list_byte].
    - Go [int] sizes reported by the adapter are [Z] (they may be negative).
    - The platform adapter ([get], [set], [list], [remove]) is not among the
      sources and reaches into the operating system.  The facade is
      therefore a program over those four calls ([Prog]), run against a
      platform ([exec]) that answers them and records the calls issued.
      A run-time panic is an outcome of its own; [make] panics for a
      negative length and above the platform's allocation limit. *)

From Stdlib Require Import ZArith Strings.Byte String.
From stdpp Require Import gmap strings list.

Local Open Scope Z_scope.

(** ** Go slices *)

Inductive slice (A : Type) : Type :=
| nil_slice
| mk_slice (elems : list A).
Arguments nil_slice {A}.
Arguments mk_slice {A} elems.

Definition elems {A} (s : slice A) : list A :=
  match s with
  | nil_slice => []
  | mk_slice l => l
  end.

Definition len {A} (s : slice A) : nat := length (elems s).

Definition is_nil {A} (s : slice A) : bool :=
  match s with
  | nil_slice => true
  | mk_slice _ => false
  end.

(** [append(s, x)]: the result is never nil. *)
Definition append {A} (s : slice A) (x : A) : slice A :=
  mk_slice (elems s ++ [x]).

(** [buf[lo:hi]] on the elements, for [lo <= hi <= len]. *)
Definition sub_slice {A} (buf : list A) (lo hi : nat) : list A :=
  take (hi - lo) (drop lo buf).

(** [for index, b := range buf { body }], threading the loop state. *)
Fixpoint range_loop {A St} (body : St → nat → A → St)
    (index : nat) (rest : list A) (st : St) : St :=
  match rest with
  | [] => st
  | b :: rest' => range_loop body (S index) rest' (body st index b)
  end.

(** ** The NUL-terminated name decoder *)

#[global] Instance byte_eq_decision : EqDecision byte := byte_eq_dec.

(** One iteration of the loop of [nullTermToStrings]; the state is
    [(offset, result)]. *)
Definition scan_step (buf : list byte) (st : nat * slice string)
    (index : nat) (b : byte) : nat * slice string :=
  let '(offset, result) := st in
  if decide (b = x00)
  then (S index, append result (string_of_list_byte (sub_slice buf offset index)))
  else (offset, result).

Definition nullTermToStrings (buf : slice byte) : slice string :=
  snd (range_loop (scan_step (elems buf)) 0%nat (elems buf) (0%nat, nil_slice)).

(** *** Reference decoder, following the wording of the specification *)

(** A byte sequence without a zero byte. *)
Definition nul_free (l : list byte) : Prop := Forall (λ b, b ≠ x00) l.

(** The buffer made of the NUL-terminated segments [segs], in order,
    followed by an unterminated tail [tl]. *)
Definition terminated (segs : list (list byte)) (tl : list byte) : list byte :=
  concat (map (λ s, s ++ [x00]) segs) ++ tl.

(** The Go slice holding [names]: nil when nothing was ever appended. *)
Definition names_slice (names : list string) : slice string :=
  match names with
  | [] => nil_slice
  | _ => mk_slice names
  end.

(** Splitting on each zero byte: [cur] is the segment being read. *)
Fixpoint split_nul (cur rest : list byte) : list (list byte) :=
  match rest with
  | [] => []
  | b :: rest' =>
      if decide (b = x00) then cur :: split_nul [] rest'
      else split_nul (cur ++ [b]) rest'
  end.

(** What is left after the last zero byte. *)
Fixpoint unterminated (cur rest : list byte) : list byte :=
  match rest with
  | [] => cur
  | b :: rest' =>
      if decide (b = x00) then unterminated [] rest'
      else unterminated (cur ++ [b]) rest'
  end.

Definition count_nul (l : list byte) : nat :=
  length (filter (λ b, b = x00) l).

(** ** Errors *)

(** A run of Go code either returns or panics. *)
Inductive outcome (A : Type) : Type :=
| returned (a : A)
| panicked.
Arguments returned {A} a.
Arguments panicked {A}.

Definition outcome_bind {A B} (o : outcome A) (f : A → outcome B) : outcome B :=
  match o with
  | returned a => f a
  | panicked => panicked
  end.

(** The struct [XAttrError], over the type of its [Err] field. *)
Record XAttrError_of (E : Type) : Type := mkXAttrError {
  Op : string;
  Path : string;
  Attr : string;
  Err : E;
}.
Arguments mkXAttrError {E} Op Path Attr Err.
Arguments Op {E} _.
Arguments Path {E} _.
Arguments Attr {E} _.
Arguments Err {E} _.

(** A value of the interface type [error], by dynamic type: the nil
    interface, a [syscall.Errno], a [*XAttrError] (a pointer, possibly nil),
    or a value of any other type, kept as the text its [Error] method
    returns. *)
#[warnings="-register-all"]
Inductive error : Type :=
| nil_error
| Errno (code : Z)
| other_error (text : string)
| ptr_XAttrError (p : option (XAttrError_of error)).

Definition XAttrError : Type := XAttrError_of error.

Definition non_nil (err : error) : bool :=
  match err with
  | nil_error => false
  | _ => true
  end.

(** [err == syscall.Errno(code)]: same dynamic type and same value. *)
Definition eq_Errno (err : error) (code : Z) : bool :=
  match err with
  | Errno c => c =? code
  | _ => false
  end.

(** [&XAttrError{op, path, attr, err}] *)
Definition new_XAttrError (op path attr : string) (err : error) : error :=
  ptr_XAttrError (Some (mkXAttrError op path attr err)).

Section ErrorText.

(** [syscall.Errno.Error], from Go's library. *)
Variable errno_text : Z → string.

(** [func (e *XAttrError) Error() string], given the method of [e.Err]. *)
Definition XAttrError_Error (Error : error → outcome string)
    (e : option XAttrError) : outcome string :=
  match e with
  | None => panicked
  | Some e =>
      outcome_bind (Error (Err e)) (λ s,
        returned (Op e +:+ " " +:+ Path e +:+ " " +:+ Attr e +:+ ": " +:+ s))
  end.

(** [err.Error()] on an interface value; a nil interface panics. *)
Fixpoint Error (err : error) : outcome string :=
  match err with
  | nil_error => panicked
  | Errno code => returned (errno_text code)
  | other_error text => returned text
  | ptr_XAttrError e => XAttrError_Error Error e
  end.

End ErrorText.

(** ** The platform files *)

Module Darwin.
(** [syscall.ENOATTR] on Darwin. *)
Definition ENOATTR : Z := 93.

Definition isNotExist (err : option XAttrError) : outcome bool :=
  match err with
  | None => panicked
  | Some e => returned (eq_Errno (Err e) ENOATTR)
  end.
End Darwin.

Module Linux.
(** [syscall.ENODATA] on Linux. *)
Definition ENODATA : Z := 61.

Definition isNotExist (err : option XAttrError) : outcome bool :=
  match err with
  | None => panicked
  | Some e => returned (eq_Errno (Err e) ENODATA)
  end.
End Linux.

(** [func IsNotExist(err error) bool], over the platform's [isNotExist]. *)
Definition IsNotExist (isNotExist : option XAttrError → outcome bool)
    (err : error) : outcome bool :=
  match err with
  | ptr_XAttrError e => isNotExist e
  | _ => returned false
  end.

(** ** Programs over the adapter *)

Inductive call : Type :=
| call_get (path attr : string) (dest : slice byte)
| call_set (path attr : string) (data : slice byte) (flags : Z)
| call_list (path : string) (dest : slice byte)
| call_remove (path attr : string).

(** What a call that fills a buffer answers: the bytes written at the start
    of the buffer, the size reported and the error. *)
Record filled : Type := mkFilled {
  written : list byte;
  sz : Z;
  err : error;
}.

Definition reply (c : call) : Type :=
  match c with
  | call_get _ _ _ | call_list _ _ => filled
  | call_set _ _ _ _ | call_remove _ _ => error
  end.

Inductive Prog (A : Type) : Type :=
| Ret (a : A)
| Panic
| Call (c : call) (k : reply c → Prog A)
| Alloc (n : Z) (k : slice byte → Prog A).
Arguments Ret {A} a.
Arguments Panic {A}.
Arguments Call {A} c k.
Arguments Alloc {A} n k.

Fixpoint bind {A B} (p : Prog A) (f : A → Prog B) : Prog B :=
  match p with
  | Ret a => f a
  | Panic => Panic
  | Call c k => Call c (λ r, bind (k r) f)
  | Alloc n k => Alloc n (λ buf, bind (k buf) f)
  end.

#[global] Instance Prog_ret : MRet Prog := @Ret.
#[global] Instance Prog_bind : MBind Prog := λ A B f p, bind p f.

(** The buffer once [w] has been written at its start: the length of a
    buffer never changes, and a nil buffer receives nothing. *)
Definition overwrite (dest : slice byte) (w : list byte) : slice byte :=
  match dest with
  | nil_slice => nil_slice
  | mk_slice l => mk_slice (take (length l) (w ++ drop (length w) l))
  end.

(** The runtime's [makeslice] for [make([]byte, n)]: [n] zero bytes, length
    and capacity [n].  A negative length panics, and so does a length above
    [max_alloc], the allocation limit of the runtime the program runs on
    (makeslice: len out of range). *)
Definition makeslice (max_alloc n : Z) : outcome (slice byte) :=
  if (n <? 0) || (max_alloc <? n) then panicked
  else returned (mk_slice (replicate (Z.to_nat n) x00)).

(** [make([]byte, n)] in a program: an allocation, which [exec] answers by
    [makeslice] at the platform's allocation limit. *)
Definition make (n : Z) : Prog (slice byte) := Alloc n Ret.

(** [buf[:hi]] for a buffer whose capacity is its length; out of range
    panics. *)
Definition slice_to (buf : slice byte) (hi : Z) : Prog (slice byte) :=
  if (hi <? 0) || (Z.of_nat (len buf) <? hi) then Panic
  else match buf with
       | nil_slice => Ret nil_slice
       | mk_slice l => Ret (mk_slice (take (Z.to_nat hi) l))
       end.

(** *** The platform adapter *)

(** The adapter's [get], [set], [list] and [remove] are not among the
    sources: a call to one of them is a primitive of [Prog], answered by the
    platform the program runs against.  [get] and [list] leave the bytes
    written in [dest], which is returned here next to the size and the
    error. *)
Module adapter.
Definition get (path attr : string) (dest : slice byte)
    : Prog (slice byte * Z * error) :=
  Call (call_get path attr dest)
       (λ r, Ret (overwrite dest (written r), sz r, err r)).

Definition set (path attr : string) (data : slice byte) (flags : Z)
    : Prog error :=
  Call (call_set path attr data flags) Ret.

Definition remove (path attr : string) : Prog error :=
  Call (call_remove path attr) Ret.

Definition list (path : string) (dest : slice byte)
    : Prog (slice byte * Z * error) :=
  Call (call_list path dest)
       (λ r, Ret (overwrite dest (written r), sz r, err r)).
End adapter.

(** *** The facade, [xattr.go] *)

Definition Getxattr (path attr : string) (dest : slice byte)
    : Prog (slice byte * Z * error) :=
  adapter.get path attr dest.

Definition Listxattr (path : string) (dest : slice byte)
    : Prog (slice byte * Z * error) :=
  adapter.list path dest.

Definition Setxattr (path attr : string) (data : slice byte) (flags : Z)
    : Prog error :=
  adapter.set path attr data flags.

Definition Removexattr (path attr : string) : Prog error :=
  adapter.remove path attr.

Section Facade.

(** The platform's namespace prefix and its [stripPrefix]; neither is among
    the sources. *)
Variable prefix : string.
Variable stripPrefix : slice string → slice string.

Definition Get (path attr : string) : Prog (slice byte * error) :=
  let attr := prefix +:+ attr in
  '(_, size, err) ← Getxattr path attr nil_slice;
  if non_nil err then Ret (nil_slice, new_XAttrError "getxattr" path attr err)
  else if size =? 0 then Ret (mk_slice [], nil_error)
  else
    buf ← make size;
    '(buf, size, err) ← Getxattr path attr buf;
    if non_nil err then Ret (nil_slice, new_XAttrError "getxattr" path attr err)
    else
      value ← slice_to buf size;
      Ret (value, nil_error).

Definition List (path : string) : Prog (slice string * error) :=
  '(_, size, err) ← Listxattr path nil_slice;
  if non_nil err then Ret (nil_slice, new_XAttrError "listxattr" path EmptyString err)
  else if size =? 0 then Ret (mk_slice [], nil_error)
  else
    buf ← make size;
    '(buf, size, err) ← Listxattr path buf;
    if non_nil err then Ret (nil_slice, new_XAttrError "listxattr" path EmptyString err)
    else
      names ← slice_to buf size;
      Ret (stripPrefix (nullTermToStrings names), nil_error).

(** [func Set]; [Set] is reserved in Rocq. *)
Definition Set_ (path attr : string) (data : slice byte) : Prog error :=
  let attr := prefix +:+ attr in
  err ← Setxattr path attr data 0;
  if non_nil err then Ret (new_XAttrError "setxattr" path attr err)
  else Ret nil_error.

Definition Remove (path attr : string) : Prog error :=
  let attr := prefix +:+ attr in
  err ← Removexattr path attr;
  if non_nil err then Ret (new_XAttrError "removexattr" path attr err)
  else Ret nil_error.

End Facade.

(** ** Running a program against a platform *)

(** A platform answers each adapter call from its state [W]; it also fixes
    the allocation limit of the Go runtime, above which [make] panics. *)
Record Platform (W : Type) : Type := mkPlatform {
  plat_get : string → string → slice byte → W → W * filled;
  plat_set : string → string → slice byte → Z → W → W * error;
  plat_list : string → slice byte → W → W * filled;
  plat_remove : string → string → W → W * error;
  plat_max_alloc : Z;
}.
Arguments mkPlatform {W} plat_get plat_set plat_list plat_remove plat_max_alloc.
Arguments plat_max_alloc {W} _.
Arguments plat_get {W} _.
Arguments plat_set {W} _.
Arguments plat_list {W} _.
Arguments plat_remove {W} _.

Definition serve {W} (K : Platform W) (c : call) : W → W * reply c :=
  match c with
  | call_get path attr dest => plat_get K path attr dest
  | call_set path attr data flags => plat_set K path attr data flags
  | call_list path dest => plat_list K path dest
  | call_remove path attr => plat_remove K path attr
  end.

(** The outcome of a run: the final state of the platform, the adapter
    calls issued, in order, and what the program returned. *)
Record run (W A : Type) : Type := mkRun {
  final : W;
  trace : list call;
  result : outcome A;
}.
Arguments mkRun {W A} final trace result.
Arguments final {W A} _.
Arguments trace {W A} _.
Arguments result {W A} _.

Fixpoint exec {W A} (K : Platform W) (p : Prog A) (w : W) : run W A :=
  match p with
  | Ret a => mkRun w [] (returned a)
  | Panic => mkRun w [] panicked
  | Call c k =>
      let '(w', r) := serve K c w in
      let rest := exec K (k r) w' in
      mkRun (final rest) (c :: trace rest) (result rest)
  | Alloc n k =>
      match makeslice (plat_max_alloc K) n with
      | returned buf => exec K (k buf) w
      | panicked => mkRun w [] panicked
      end
  end.

(** The allocation limit of the Go runtime on 64-bit Linux and Darwin,
    [maxAlloc = 1 << 48]; the platforms below run with it. *)
Definition maxAlloc : Z := 2 ^ 48.

(** *** An in-memory platform *)

Definition ERANGE : Z := 34.

(** Modelled from the spec: the answer of the adapter's [get] and [list]
    for a stored value [v], as section 4.1 describes it.  With an empty
    destination the required size is reported; with a large enough one the
    value is written and its size reported; a destination that is too small
    is an error. *)

Definition fill (v : list byte) (dest : slice byte) : filled :=
  if decide (len dest = 0%nat) then mkFilled [] (Z.of_nat (length v)) nil_error
  else if decide (length v ≤ len dest)%nat
       then mkFilled v (Z.of_nat (length v)) nil_error
       else mkFilled [] (-1) (Errno ERANGE).

Definition names_of (path : string) (w : gmap (string * string) (list byte))
    : list byte :=
  concat (map (λ kv, list_byte_of_string (snd (fst kv)) ++ [x00])
              (filter (λ kv, fst (fst kv) = path) (map_to_list w))).

(** Modelled from the spec: the adapter of section 4.1 over a store of
    attribute values keyed by path and attribute name.  [absent] is the
    platform's attribute-absent error number. *)
Definition mem_platform (absent : Z) : Platform (gmap (string * string) (list byte)) :=
  {| plat_get path attr dest w :=
       (w, match w !! (path, attr) with
           | Some v => fill v dest
           | None => mkFilled [] (-1) (Errno absent)
           end);
     plat_set path attr data flags w :=
       (<[(path, attr) := elems data]> w, nil_error);
     plat_list path dest w := (w, fill (names_of path w) dest);
     plat_remove path attr w :=
       match w !! (path, attr) with
       | Some _ => (delete (path, attr) w, nil_error)
       | None => (w, Errno absent)
       end;
     plat_max_alloc := maxAlloc |}.

(** Modelled from the spec: what section 4.1 asks of an adapter for a value
    written by a successful [set] to be read back.  [holds w path attr v]
    says that state [w] stores [v] under [attr] at [path]; [get] reports the
    required size for an empty destination and writes the value into a
    destination that is large enough. *)
Record stores {W} (K : Platform W)
    (holds : W → string → string → list byte → Prop) : Prop := {
  set_holds : ∀ w w' path attr data,
    plat_set K path attr data 0 w = (w', nil_error) →
    holds w' path attr (elems data);
  get_size : ∀ w path attr v dest,
    holds w path attr v → len dest = 0%nat →
    ∃ w' r, plat_get K path attr dest w = (w', r) ∧ holds w' path attr v ∧
            sz r = Z.of_nat (length v) ∧ err r = nil_error;
  get_value : ∀ w path attr v dest,
    holds w path attr v → (0 < len dest)%nat → (length v ≤ len dest)%nat →
    ∃ w' r, plat_get K path attr dest w = (w', r) ∧ holds w' path attr v ∧
            written r = v ∧ sz r = Z.of_nat (length v) ∧ err r = nil_error;
}.

(** The buffer [make([]byte, size)] once [w] has been written into it. *)
Definition filled_buffer (size : Z) (w : list byte) : slice byte :=
  overwrite (mk_slice (replicate (Z.to_nat size) x00)) w.

(** An error value is the wrapper of a failure at [path] on [attr]. *)
Definition wraps (e : error) (op path attr : string) : Prop :=
  ∃ cause, e = new_XAttrError op path attr cause ∧ cause ≠ nil_error.

(** *** Two platforms on which the size changes between the calls *)

(** The attribute shrinks: discovery reports 5 bytes, the fill call writes
    "bar" and reports 3. *)
Definition shrinking : Platform unit :=
  {| plat_get _ _ dest w :=
       (w, if decide (len dest = 0%nat) then mkFilled [] 5 nil_error
           else mkFilled (list_byte_of_string "bar") 3 nil_error);
     plat_set _ _ _ _ w := (w, nil_error);
     plat_list _ dest w :=
       (w, if decide (len dest = 0%nat) then mkFilled [] 5 nil_error
           else mkFilled (list_byte_of_string "a" ++ [x00]) 2 nil_error);
     plat_remove _ _ w := (w, nil_error);
     plat_max_alloc := maxAlloc |}.

(** An adapter that reports, on success, more than the buffer holds:
    discovery reports 3 bytes, the fill call reports 5. *)
Definition overreporting : Platform unit :=
  {| plat_get _ _ dest w :=
       (w, if decide (len dest = 0%nat) then mkFilled [] 3 nil_error
           else mkFilled (list_byte_of_string "bar") 5 nil_error);
     plat_set _ _ _ _ w := (w, nil_error);
     plat_list _ dest w :=
       (w, if decide (len dest = 0%nat) then mkFilled [] 3 nil_error
           else mkFilled (list_byte_of_string "a" ++ [x00]) 5 nil_error);
     plat_remove _ _ w := (w, nil_error);
     plat_max_alloc := maxAlloc |}.

(** *** The decoder with Go's bounds checks *)

(** [buf[lo:hi]] as Go evaluates it on a buffer whose capacity is its
    length: out of range panics. *)
Definition sub_slice_checked {A} (buf : list A) (lo hi : nat)
    : outcome (list A) :=
  if decide (lo ≤ hi ∧ hi ≤ length buf)%nat
  then returned (sub_slice buf lo hi)
  else panicked.

(** One iteration of the loop of [nullTermToStrings], the slice expression
    checked. *)
Definition scan_step_checked (buf : list byte)
    (st : outcome (nat * slice string)) (index : nat) (b : byte)
    : outcome (nat * slice string) :=
  outcome_bind st (λ '(offset, result),
    if decide (b = x00)
    then outcome_bind (sub_slice_checked buf offset index) (λ name,
           returned (S index, append result (string_of_list_byte name)))
    else returned (offset, result)).

Definition nullTermToStrings_checked (buf : slice byte)
    : outcome (slice string) :=
  outcome_bind
    (range_loop (scan_step_checked (elems buf)) 0%nat (elems buf)
       (returned (0%nat, nil_slice)))
    (λ st, returned (snd st)).

(** The bytes of a list of names, each followed by a zero byte. *)
Definition nul_joined (names : list string) : list byte :=
  concat (map (λ n, list_byte_of_string n ++ [x00]) names).

(** *** A platform whose discovery reports more than can be allocated *)

(** Discovery reports [1 << 62] bytes, above the allocation limit. *)
Definition huge_discovery : Platform unit :=
  {| plat_get _ _ dest w := (w, mkFilled [] (2 ^ 62) nil_error);
     plat_set _ _ _ _ w := (w, nil_error);
     plat_list _ dest w := (w, mkFilled [] (2 ^ 62) nil_error);
     plat_remove _ _ w := (w, nil_error);
     plat_max_alloc := maxAlloc |}.

(** *** A platform whose fill call fails *)

(** Discovery reports 3 bytes, the fill call fails with [EIO]. *)
Definition EIO : Z := 5.

Definition failing_fill : Platform unit :=
  {| plat_get _ _ dest w :=
       (w, if decide (len dest = 0%nat) then mkFilled [] 3 nil_error
           else mkFilled [] (-1) (Errno EIO));
     plat_set _ _ _ _ w := (w, Errno EIO);
     plat_list _ dest w :=
       (w, if decide (len dest = 0%nat) then mkFilled [] 3 nil_error
           else mkFilled [] (-1) (Errno EIO));
     plat_remove _ _ w := (w, Errno EIO);
     plat_max_alloc := maxAlloc |}.

(** ** Properties of the decoder *)

Section Decoder.

Implicit Types (buf cur rest pre tl : list byte) (segs : list (list byte)).

Lemma sub_slice_middle pre cur rest :
  sub_slice (pre ++ cur ++ rest) (length pre) (length pre + length cur) = cur.
Proof.
  unfold sub_slice. rewrite drop_app_length.
  replace (length pre + length cur - length pre)%nat with (length cur) by lia.
  by rewrite take_app_length.
Qed.

(** The loop, started in the middle of the buffer: [pre] has been split
    already, [cur] is the segment being read and [rest] is still to scan. *)
Lemma range_loop_scan rest : ∀ pre cur result index offset,
  index = (length pre + length cur)%nat → offset = length pre →
  range_loop (scan_step (pre ++ cur ++ rest)) index rest (offset, result)
  = (length pre + length (cur ++ rest) - length (unterminated cur rest),
     fold_left append (map string_of_list_byte (split_nul cur rest)) result)%nat.
Proof.
  induction rest as [|b rest IH]; intros pre cur result index offset -> ->; simpl.
  - f_equal. rewrite app_nil_r. lia.
  - destruct (decide (b = x00)) as [->|Hb].
    + rewrite sub_slice_middle.
      specialize (IH (pre ++ cur ++ [x00]) []
                     (append result (string_of_list_byte cur))).
      rewrite <- !app_assoc in IH. simpl in IH.
      rewrite IH by (rewrite !length_app; simpl; lia).
      simpl. f_equal. rewrite !length_app. simpl. lia.
    + specialize (IH pre (cur ++ [b]) result).
      rewrite <- !app_assoc in IH. simpl in IH.
      by rewrite IH by (rewrite ?length_app; simpl; lia).
Qed.

Lemma fold_append_names (names : list string) : ∀ result,
  fold_left append names result
  = match names with [] => result | _ => mk_slice (elems result ++ names) end.
Proof.
  induction names as [|n names IH]; intros result; [done|].
  simpl. rewrite IH. destruct names; simpl; [done|].
  by rewrite <- app_assoc.
Qed.

(** The code computes the reference decoder. *)
Lemma nullTermToStrings_split (b : slice byte) :
  nullTermToStrings b
  = names_slice (map string_of_list_byte (split_nul [] (elems b))).
Proof.
  unfold nullTermToStrings.
  pose proof (range_loop_scan (elems b) [] [] nil_slice 0%nat 0%nat eq_refl eq_refl) as H.
  simpl in H. rewrite H. simpl. rewrite fold_append_names.
  by destruct (map _ _).
Qed.

Lemma split_nul_terminated segs : ∀ cur tl,
  nul_free cur → Forall nul_free segs → nul_free tl →
  split_nul cur (terminated segs tl)
  = match segs with [] => [] | s :: segs' => (cur ++ s) :: segs' end.
Proof.
  assert (Hfree : ∀ s cur rest, nul_free s →
    split_nul cur (s ++ rest) = split_nul (cur ++ s) rest).
  { induction s as [|b s IH]; intros cur rest Hs; simpl.
    - by rewrite app_nil_r.
    - inversion Hs; subst. destruct (decide (b = x00)); [done|].
      rewrite IH by done. by rewrite <- app_assoc. }
  assert (Htail : ∀ tl cur, nul_free tl → split_nul cur tl = []).
  { induction tl as [|b tl IH]; intros cur Ht; simpl; [done|].
    inversion Ht; subst. destruct (decide (b = x00)); [done|]. by apply IH. }
  induction segs as [|s segs IH]; intros cur tl Hc Hs Ht.
  - by apply Htail.
  - inversion Hs; subst. unfold terminated. simpl.
    rewrite <- !app_assoc. rewrite Hfree by done. simpl.
    destruct (decide (x00 = x00)); [|done].
    f_equal. fold (terminated segs tl).
    rewrite IH by (done || constructor). by destruct segs.
Qed.

Lemma split_nul_spec cur rest :
  nul_free cur →
  Forall nul_free (split_nul cur rest) ∧ nul_free (unterminated cur rest) ∧
  cur ++ rest
  = terminated (split_nul cur rest) (unterminated cur rest) ∧
  length (split_nul cur rest) = count_nul rest.
Proof.
  revert cur. induction rest as [|b rest IH]; intros cur Hc; simpl.
  - split_and!; [constructor|done|apply app_nil_r|done].
  - unfold count_nul. rewrite filter_cons.
    destruct (decide (b = x00)) as [->|Hb].
    + destruct (IH [] (Forall_nil_2 _)) as (H1 & H2 & H3 & H4).
      split_and!; [by constructor|done| |simpl; by rewrite H4].
      unfold terminated in *. simpl in *.
      rewrite <- app_assoc, <- H3. by rewrite <- app_assoc.
    + destruct (IH (cur ++ [b])) as (H1 & H2 & H3 & H4).
      { apply Forall_app; split; [done|by repeat constructor]. }
      split_and!; [done|done| |done].
      rewrite <- H3. by rewrite <- app_assoc.
Qed.

End Decoder.

(** C2. For every byte buffer, [nullTermToStrings] returns, in order, one
    string per zero byte: the bytes between the previous zero byte (or the
    start of the buffer) and that zero byte.  Whatever follows the last zero
    byte is dropped, and a buffer without a zero byte yields no names (the
    nil slice).  Every buffer is, in exactly this sense, a sequence of
    NUL-terminated segments followed by an unterminated tail. *)
Theorem nullTermToStrings_segments (buf : slice byte) :
  (∀ segs tl,
     Forall nul_free segs → nul_free tl → elems buf = terminated segs tl →
     nullTermToStrings buf = names_slice (map string_of_list_byte segs))
  ∧ (∃ segs tl,
       Forall nul_free segs ∧ nul_free tl ∧ elems buf = terminated segs tl)
  ∧ len (nullTermToStrings buf) = count_nul (elems buf)
  ∧ (count_nul (elems buf) = 0%nat → nullTermToStrings buf = nil_slice).
Proof.
  destruct (split_nul_spec [] (elems buf) (Forall_nil_2 _)) as (H1 & H2 & H3 & H4).
  split_and!.
  - intros segs tl Hs Ht Hb. rewrite nullTermToStrings_split, Hb.
    rewrite split_nul_terminated by (done || constructor).
    by destruct segs.
  - by exists (split_nul [] (elems buf)), (unterminated [] (elems buf)).
  - rewrite nullTermToStrings_split, <- H4.
    destruct (split_nul [] (elems buf)); [done|].
    unfold len. simpl. by rewrite length_map.
  - intros Hz. rewrite nullTermToStrings_split.
    rewrite <- H4 in Hz. by destruct (split_nul [] (elems buf)).
Qed.

Lemma nullTermToStrings_segments_witness :
  nullTermToStrings
    (mk_slice (list_byte_of_string "user.a" ++ [x00] ++ [x00]
               ++ list_byte_of_string "b" ++ [x00] ++ list_byte_of_string "xy"))
  = mk_slice ["user.a"; EmptyString; "b"]%string.
Proof.
  apply (proj1 (nullTermToStrings_segments _)
           [list_byte_of_string "user.a"; []; list_byte_of_string "b"]
           (list_byte_of_string "xy")).
  - repeat constructor; vm_compute; discriminate.
  - repeat constructor; vm_compute; discriminate.
  - reflexivity.
Defined.

(** ** Runs of the facade *)

Section Runs.

Context {W : Type} (P : Platform W).
Variable prefix : string.
Variable stripPrefix : slice string → slice string.

Lemma len_filled_buffer size w : len (filled_buffer size w) = Z.to_nat size.
Proof.
  unfold filled_buffer, len. simpl. rewrite length_replicate, length_take.
  rewrite length_app, length_drop, length_replicate. lia.
Qed.

Lemma slice_to_filled_buffer size w hi :
  slice_to (filled_buffer size w) hi
  = if (hi <? 0) || (Z.of_nat (Z.to_nat size) <? hi) then Panic
    else Ret (mk_slice (take (Z.to_nat hi) (elems (filled_buffer size w)))).
Proof.
  unfold slice_to. rewrite len_filled_buffer. by destruct (_ || _).
Qed.

Lemma exec_Alloc {A} n (k : slice byte → Prog A) w :
  exec P (Alloc n k) w
  = match makeslice (plat_max_alloc P) n with
    | returned buf => exec P (k buf) w
    | panicked => mkRun w [] panicked
    end.
Proof. done. Qed.

#[local] Arguments overwrite : simpl never.
#[local] Arguments slice_to : simpl never.

(** [Get], call by call. *)
Lemma exec_Get path attr w :
  exec P (Get prefix path attr) w =
  let name := prefix +:+ attr in
  let c1 := call_get path name nil_slice in
  let '(w1, r1) := plat_get P path name nil_slice w in
  if non_nil (err r1)
  then mkRun w1 [c1] (returned (nil_slice, new_XAttrError "getxattr" path name (err r1)))
  else if sz r1 =? 0 then mkRun w1 [c1] (returned (mk_slice [], nil_error))
  else if (sz r1 <? 0) || (plat_max_alloc P <? sz r1)
  then mkRun w1 [c1] panicked
  else
    let buf := mk_slice (replicate (Z.to_nat (sz r1)) x00) in
    let c2 := call_get path name buf in
    let '(w2, r2) := plat_get P path name buf w1 in
    if non_nil (err r2)
    then mkRun w2 [c1; c2]
           (returned (nil_slice, new_XAttrError "getxattr" path name (err r2)))
    else if (sz r2 <? 0) || (sz r1 <? sz r2) then mkRun w2 [c1; c2] panicked
    else mkRun w2 [c1; c2]
           (returned (mk_slice (take (Z.to_nat (sz r2))
                                  (elems (filled_buffer (sz r1) (written r2)))),
                      nil_error)).
Proof.
  unfold Get, Getxattr, adapter.get. simpl.
  destruct (plat_get P path (prefix +:+ attr) nil_slice w) as [w1 r1]. simpl.
  destruct (non_nil (err r1)); [done|].
  destruct (sz r1 =? 0) eqn:E0; [done|].
  rewrite exec_Alloc. unfold makeslice.
  destruct ((sz r1 <? 0) || (plat_max_alloc P <? sz r1)) eqn:E1; [done|].
  simpl.
  destruct (plat_get P path (prefix +:+ attr) _ w1) as [w2 r2]. simpl.
  destruct (non_nil (err r2)); [done|].
  fold (filled_buffer (sz r1) (written r2)).
  rewrite slice_to_filled_buffer.
  replace (Z.of_nat (Z.to_nat (sz r1))) with (sz r1) by lia.
  by destruct ((sz r2 <? 0) || (sz r1 <? sz r2)).
Qed.

(** [List], call by call. *)
Lemma exec_List path w :
  exec P (List stripPrefix path) w =
  let c1 := call_list path nil_slice in
  let '(w1, r1) := plat_list P path nil_slice w in
  if non_nil (err r1)
  then mkRun w1 [c1] (returned (nil_slice, new_XAttrError "listxattr" path EmptyString (err r1)))
  else if sz r1 =? 0 then mkRun w1 [c1] (returned (mk_slice [], nil_error))
  else if (sz r1 <? 0) || (plat_max_alloc P <? sz r1)
  then mkRun w1 [c1] panicked
  else
    let buf := mk_slice (replicate (Z.to_nat (sz r1)) x00) in
    let c2 := call_list path buf in
    let '(w2, r2) := plat_list P path buf w1 in
    if non_nil (err r2)
    then mkRun w2 [c1; c2]
           (returned (nil_slice, new_XAttrError "listxattr" path EmptyString (err r2)))
    else if (sz r2 <? 0) || (sz r1 <? sz r2) then mkRun w2 [c1; c2] panicked
    else mkRun w2 [c1; c2]
           (returned
              (stripPrefix
                 (nullTermToStrings
                    (mk_slice (take (Z.to_nat (sz r2))
                                 (elems (filled_buffer (sz r1) (written r2)))))),
               nil_error)).
Proof.
  unfold List, Listxattr, adapter.list. simpl.
  destruct (plat_list P path nil_slice w) as [w1 r1]. simpl.
  destruct (non_nil (err r1)); [done|].
  destruct (sz r1 =? 0) eqn:E0; [done|].
  rewrite exec_Alloc. unfold makeslice.
  destruct ((sz r1 <? 0) || (plat_max_alloc P <? sz r1)) eqn:E1; [done|].
  simpl.
  destruct (plat_list P path _ w1) as [w2 r2]. simpl.
  destruct (non_nil (err r2)); [done|].
  fold (filled_buffer (sz r1) (written r2)).
  rewrite slice_to_filled_buffer.
  replace (Z.of_nat (Z.to_nat (sz r1))) with (sz r1) by lia.
  by destruct ((sz r2 <? 0) || (sz r1 <? sz r2)).
Qed.

(** [Set], call by call. *)
Lemma exec_Set path attr data w :
  exec P (Set_ prefix path attr data) w =
  let name := prefix +:+ attr in
  let '(w1, e) := plat_set P path name data 0 w in
  mkRun w1 [call_set path name data 0]
    (returned (if non_nil e then new_XAttrError "setxattr" path name e
               else nil_error)).
Proof.
  unfold Set_, Setxattr, adapter.set. simpl.
  destruct (plat_set P path (prefix +:+ attr) data 0 w) as [w1 e]. simpl.
  by destruct (non_nil e).
Qed.

(** [Remove], call by call. *)
Lemma exec_Remove path attr w :
  exec P (Remove prefix path attr) w =
  let name := prefix +:+ attr in
  let '(w1, e) := plat_remove P path name w in
  mkRun w1 [call_remove path name]
    (returned (if non_nil e then new_XAttrError "removexattr" path name e
               else nil_error)).
Proof.
  unfold Remove, Removexattr, adapter.remove. simpl.
  destruct (plat_remove P path (prefix +:+ attr) w) as [w1 e]. simpl.
  by destruct (non_nil e).
Qed.

Lemma non_nil_true e : non_nil e = true ↔ e ≠ nil_error.
Proof. by destruct e. Qed.

Lemma non_nil_false e : non_nil e = false ↔ e = nil_error.
Proof. by destruct e. Qed.

Lemma alloc_check_false (n limit : Z) :
  0 ≤ n ≤ limit → (n <? 0) || (limit <? n) = false.
Proof. intros H. apply orb_false_iff. rewrite !Z.ltb_ge. lia. Qed.

Lemma alloc_check_true (n limit : Z) :
  n < 0 ∨ limit < n → (n <? 0) || (limit <? n) = true.
Proof. intros H. apply orb_true_iff. rewrite !Z.ltb_lt. lia. Qed.

Lemma wraps_new op path attr cause :
  non_nil cause = true → wraps (new_XAttrError op path attr cause) op path attr.
Proof. intros H. exists cause. by rewrite <- non_nil_true. Qed.

End Runs.

(** ** The claims about errors *)

(** C1, as stated: the [Attr] field of an error from [Get] would be the
    caller's attribute name.  On a platform whose prefix is "user.", [Get]
    of the absent attribute "foo" fails with an error whose [Attr] is
    "user.foo". *)
Lemma error_attr_unprefixed_fails :
  ∃ e : XAttrError,
    result (exec (mem_platform 61) (Get "user." "/tmp/f" "foo") ∅)
    = returned (nil_slice, ptr_XAttrError (Some e))
    ∧ Path e = "/tmp/f"%string ∧ Attr e = "user.foo"%string
    ∧ Attr e ≠ "foo"%string.
Proof.
  exists (mkXAttrError "getxattr" "/tmp/f" "user.foo" (Errno 61)).
  split_and!; [by vm_compute|done|done|done].
Qed.

(** C1, amended: every non-nil error returned by [Get], [Set] or [Remove]
    is a pointer to an [XAttrError] that carries the operation's name, the
    caller's path, the attribute name with the namespace prefix prepended,
    and the adapter's non-nil error. *)
Theorem error_shape {W} (P : Platform W) (prefix path attr : string) (w : W) :
  (∀ v e, result (exec P (Get prefix path attr) w) = returned (v, e) →
          e ≠ nil_error → wraps e "getxattr" path (prefix +:+ attr))
  ∧ (∀ data e, result (exec P (Set_ prefix path attr data) w) = returned e →
               e ≠ nil_error → wraps e "setxattr" path (prefix +:+ attr))
  ∧ (∀ e, result (exec P (Remove prefix path attr) w) = returned e →
          e ≠ nil_error → wraps e "removexattr" path (prefix +:+ attr)).
Proof.
  split_and!.
  - intros v e. rewrite exec_Get. simpl.
    destruct (plat_get P path _ nil_slice w) as [w1 r1].
    destruct (non_nil (err r1)) eqn:N1; simpl.
    { intros [= <- <-] _. by apply wraps_new. }
    destruct (sz r1 =? 0); simpl; [by intros [= <- <-]|].
    destruct ((sz r1 <? 0) || (plat_max_alloc P <? sz r1)); simpl; [done|].
    destruct (plat_get P path _ _ w1) as [w2 r2].
    destruct (non_nil (err r2)) eqn:N2; simpl.
    { intros [= <- <-] _. by apply wraps_new. }
    destruct (_ || _); simpl; [done|by intros [= <- <-]].
  - intros data e. rewrite exec_Set. simpl.
    destruct (plat_set P path _ data 0 w) as [w1 e1]. simpl.
    destruct (non_nil e1) eqn:N; intros [= <-]; [|done].
    intros _. by apply wraps_new.
  - intros e. rewrite exec_Remove. simpl.
    destruct (plat_remove P path _ w) as [w1 e1]. simpl.
    destruct (non_nil e1) eqn:N; intros [= <-]; [|done].
    intros _. by apply wraps_new.
Qed.

Lemma error_shape_witness :
  wraps (new_XAttrError "getxattr" "/tmp/f" "user.foo" (Errno 61))
        "getxattr" "/tmp/f" ("user." +:+ "foo").
Proof.
  apply (proj1 (error_shape (mem_platform 61) "user." "/tmp/f" "foo" ∅) nil_slice).
  - vm_compute. reflexivity.
  - discriminate.
Defined.

(** C3. [IsNotExist(err)] returns true only if [err] is a pointer to an
    [XAttrError] whose [Err] is the platform's attribute-absent error
    number, [ENOATTR] on Darwin and [ENODATA] on Linux.  For a value of any
    other type it returns false; in particular for the bare error number
    that a low-level operation returns. *)
Theorem IsNotExist_only_wrapped_absent (e : error) :
  (IsNotExist Darwin.isNotExist e = returned true →
     ∃ x : XAttrError,
       e = ptr_XAttrError (Some x) ∧ Err x = Errno Darwin.ENOATTR)
  ∧ (IsNotExist Linux.isNotExist e = returned true →
       ∃ x : XAttrError,
         e = ptr_XAttrError (Some x) ∧ Err x = Errno Linux.ENODATA)
  ∧ ((∀ p, e ≠ ptr_XAttrError p) →
       ∀ isNotExist, IsNotExist isNotExist e = returned false)
  ∧ (∀ isNotExist code, IsNotExist isNotExist (Errno code) = returned false).
Proof.
  assert (Habsent : ∀ (x : XAttrError) code,
            returned (eq_Errno (Err x) code) = returned true →
            Err x = Errno code).
  { intros x code [= H]. destruct (Err x); simpl in H; try done.
    f_equal. lia. }
  split_and!.
  - destruct e as [| | |[x|]]; simpl; try done.
    intros H. exists x. split; [done|by apply Habsent].
  - destruct e as [| | |[x|]]; simpl; try done.
    intros H. exists x. split; [done|by apply Habsent].
  - intros Hne isNotExist. destruct e as [| | |p]; simpl; try done.
    by destruct (Hne p).
  - done.
Qed.

Lemma IsNotExist_only_wrapped_absent_witness :
  ∃ x : XAttrError,
    new_XAttrError "getxattr" "/tmp/f" "user.foo" (Errno 61)
    = ptr_XAttrError (Some x)
    ∧ Err x = Errno Linux.ENODATA.
Proof.
  apply (proj1 (proj2 (IsNotExist_only_wrapped_absent
           (new_XAttrError "getxattr" "/tmp/f" "user.foo" (Errno 61))))).
  reflexivity.
Defined.

(** C10, as stated: for a list error, whose [Attr] is empty, the text would
    have two consecutive spaces before the colon.  The text of the error of
    a failed listing of "/tmp/f" has a single space there, and two
    consecutive spaces nowhere. *)
Lemma list_error_two_spaces_fails :
  ∃ s : string,
    Error (λ _, "no data available"%string)
          (new_XAttrError "listxattr" "/tmp/f" EmptyString (Errno 61))
    = returned s
    ∧ s = "listxattr /tmp/f : no data available"%string
    ∧ String.index 0 "  " s = None.
Proof. eexists. split_and!; [reflexivity|reflexivity|by vm_compute]. Qed.

(** C10, amended: the [Error] method of an [XAttrError] returns
    [Op + " " + Path + " " + Attr + ": " + Err.Error()] whenever the method
    of its [Err] returns, and panics when that one panics, as it does for a
    nil [Err].  For a list error, whose [Attr] is empty, this is
    [Op + " " + Path + " : " + Err.Error()]: one space before the colon. *)
Theorem XAttrError_Error_text (errno_text : Z → string) (x : XAttrError) :
  Error errno_text (ptr_XAttrError (Some x))
  = outcome_bind (Error errno_text (Err x)) (λ s,
      returned (Op x +:+ " " +:+ Path x +:+ " " +:+ Attr x +:+ ": " +:+ s))
  ∧ (Err x = nil_error → Error errno_text (ptr_XAttrError (Some x)) = panicked)
  ∧ (∀ s, Error errno_text (Err x) = returned s → Attr x = EmptyString →
       Error errno_text (ptr_XAttrError (Some x))
       = returned (Op x +:+ " " +:+ Path x +:+ " : " +:+ s)).
Proof.
  split_and!; [done| |].
  - intros H. simpl. by rewrite H.
  - intros s Hs Ha. simpl. by rewrite Hs, Ha.
Qed.

Lemma XAttrError_Error_text_witness :
  Error (λ _, "no data available"%string)
        (new_XAttrError "listxattr" "/tmp/f" EmptyString (Errno 61))
  = returned "listxattr /tmp/f : no data available"%string.
Proof.
  apply (proj2 (proj2 (XAttrError_Error_text (λ _, "no data available"%string)
           (mkXAttrError "listxattr" "/tmp/f" EmptyString (Errno 61))))
           "no data available"%string);
    reflexivity.
Defined.

(** ** The claims about runs *)

(** C5. When [Get] returns without error after a fill call that reported
    size [sz r2], the value is exactly the first [sz r2] bytes of the buffer
    that was allocated at the size [sz r1] discovered by the first call and
    then filled: its length is [sz r2] also when that is smaller than
    [sz r1], so the rest of the buffer is dropped and nothing is padded. *)
Theorem Get_truncates_to_reported_size {W} (P : Platform W)
    (prefix path attr : string) (w w1 w2 : W) (r1 r2 : filled)
    (v : slice byte) :
  plat_get P path (prefix +:+ attr) nil_slice w = (w1, r1) →
  sz r1 ≠ 0 →
  plat_get P path (prefix +:+ attr)
    (mk_slice (replicate (Z.to_nat (sz r1)) x00)) w1 = (w2, r2) →
  result (exec P (Get prefix path attr) w) = returned (v, nil_error) →
  v = mk_slice (take (Z.to_nat (sz r2))
                  (elems (filled_buffer (sz r1) (written r2))))
  ∧ Z.of_nat (len v) = sz r2
  ∧ 0 ≤ sz r2 ≤ sz r1
  ∧ len (filled_buffer (sz r1) (written r2)) = Z.to_nat (sz r1).
Proof.
  intros H1 Hnz H2. rewrite exec_Get. simpl. rewrite H1.
  destruct (non_nil (err r1)); simpl; [done|].
  destruct (Z.eqb_spec (sz r1) 0); [done|].
  destruct ((sz r1 <? 0) || (plat_max_alloc P <? sz r1)) eqn:E1; simpl; [done|].
  apply orb_false_iff in E1 as [E1 _].
  rewrite H2.
  destruct (non_nil (err r2)); simpl; [done|].
  destruct (_ || _) eqn:E2; simpl; [done|].
  intros [= <-]. apply orb_false_iff in E2 as [E3 E4].
  apply Z.ltb_ge in E1, E3, E4.
  pose proof (len_filled_buffer (sz r1) (written r2)) as Hl.
  split; [done|]. split; [|split; [lia|done]].
  unfold len. cbn [elems].
  rewrite !length_take, length_app, length_drop, !length_replicate. lia.
Qed.

Lemma Get_truncates_to_reported_size_witness :
  mk_slice (list_byte_of_string "bar")
  = mk_slice (take (Z.to_nat 3)
                (elems (filled_buffer 5 (list_byte_of_string "bar"))))
  ∧ Z.of_nat (len (mk_slice (list_byte_of_string "bar"))) = 3
  ∧ 0 ≤ 3 ≤ 5
  ∧ len (filled_buffer 5 (list_byte_of_string "bar")) = Z.to_nat 5.
Proof.
  apply (Get_truncates_to_reported_size shrinking "user." "/tmp/f" "foo"
           tt tt tt (mkFilled [] 5 nil_error)
           (mkFilled (list_byte_of_string "bar") 3 nil_error));
    [reflexivity|simpl; lia|reflexivity|reflexivity].
Defined.

(** C6. When the size-discovery call succeeds with size 0, [Get] returns a
    non-nil byte slice of length zero and a nil error, [List] returns an
    empty list of names and a nil error, and in both the discovery call is
    the only adapter call issued. *)
Theorem zero_size_is_empty_without_fill {W} (P : Platform W)
    (prefix : string) (stripPrefix : slice string → slice string)
    (path attr : string) (w : W) :
  (∀ w1 r1,
     plat_get P path (prefix +:+ attr) nil_slice w = (w1, r1) →
     err r1 = nil_error → sz r1 = 0 →
     exec P (Get prefix path attr) w
     = mkRun w1 [call_get path (prefix +:+ attr) nil_slice]
             (returned (mk_slice [], nil_error)))
  ∧ (∀ w1 r1,
       plat_list P path nil_slice w = (w1, r1) →
       err r1 = nil_error → sz r1 = 0 →
       exec P (List stripPrefix path) w
       = mkRun w1 [call_list path nil_slice]
               (returned (mk_slice [], nil_error))).
Proof.
  split; intros w1 r1 H1 He Hs.
  - rewrite exec_Get. simpl. by rewrite H1, He, Hs.
  - rewrite exec_List. simpl. by rewrite H1, He, Hs.
Qed.

Lemma zero_size_is_empty_without_fill_witness :
  exec (mem_platform 61) (Get "user." "/tmp/f" "foo")
       {[ ("/tmp/f", "user.foo")%string := [] ]}
  = mkRun {[ ("/tmp/f", "user.foo")%string := [] ]}
          [call_get "/tmp/f" ("user." +:+ "foo") nil_slice]
          (returned (mk_slice [], nil_error)).
Proof.
  apply (proj1 (zero_size_is_empty_without_fill (mem_platform 61) "user."
                  (λ names, names) "/tmp/f" "foo" _) _
               (mkFilled [] 0 nil_error));
    reflexivity.
Defined.

(** C7. [Set] prepends the namespace prefix to the attribute name once and
    calls [Setxattr] on that name with the data and with flags 0; this is
    its only adapter call.  It returns nil when the call succeeds and
    otherwise a pointer to an [XAttrError] whose [Op] is "setxattr". *)
Theorem Set_prefixes_once_flags_zero {W} (P : Platform W)
    (prefix path attr : string) (data : slice byte) (w : W) :
  (∃ k, Set_ prefix path attr data
        = Setxattr path (prefix +:+ attr) data 0 ≫= k)
  ∧ trace (exec P (Set_ prefix path attr data) w)
    = [call_set path (prefix +:+ attr) data 0]
  ∧ final (exec P (Set_ prefix path attr data) w)
    = fst (plat_set P path (prefix +:+ attr) data 0 w)
  ∧ result (exec P (Set_ prefix path attr data) w)
    = returned
        (match snd (plat_set P path (prefix +:+ attr) data 0 w) with
         | nil_error => nil_error
         | e => ptr_XAttrError
                  (Some (mkXAttrError "setxattr" path (prefix +:+ attr) e))
         end).
Proof.
  split; [by eexists|].
  rewrite exec_Set. simpl.
  destruct (plat_set P path _ data 0 w) as [w1 e]. simpl.
  by destruct e.
Qed.

(** C8. Each low-level operation is the corresponding adapter function: it
    issues that one adapter call on the attribute name and the buffer it was
    given, and returns the size and the error the adapter reported, the
    error as it is. *)
Theorem low_level_pass_through {W} (P : Platform W) (w : W)
    (path attr : string) (buf : slice byte) (flags : Z) :
  (Getxattr path attr buf = adapter.get path attr buf
   ∧ exec P (Getxattr path attr buf) w
     = mkRun (fst (plat_get P path attr buf w)) [call_get path attr buf]
         (returned (overwrite buf (written (snd (plat_get P path attr buf w))),
                    sz (snd (plat_get P path attr buf w)),
                    err (snd (plat_get P path attr buf w)))))
  ∧ (Setxattr path attr buf flags = adapter.set path attr buf flags
     ∧ exec P (Setxattr path attr buf flags) w
       = mkRun (fst (plat_set P path attr buf flags w))
           [call_set path attr buf flags]
           (returned (snd (plat_set P path attr buf flags w))))
  ∧ (Listxattr path buf = adapter.list path buf
     ∧ exec P (Listxattr path buf) w
       = mkRun (fst (plat_list P path buf w)) [call_list path buf]
           (returned (overwrite buf (written (snd (plat_list P path buf w))),
                      sz (snd (plat_list P path buf w)),
                      err (snd (plat_list P path buf w)))))
  ∧ (Removexattr path attr = adapter.remove path attr
     ∧ exec P (Removexattr path attr) w
       = mkRun (fst (plat_remove P path attr w)) [call_remove path attr]
           (returned (snd (plat_remove P path attr w)))).
Proof.
  split_and!; try done; simpl.
  - by destruct (plat_get P path attr buf w).
  - by destruct (plat_set P path attr buf flags w).
  - by destruct (plat_list P path buf w).
  - by destruct (plat_remove P path attr w).
Qed.

(** C9. In [Get] and in [List], after a successful discovery of a positive
    size that [make] can allocate and a successful fill call, [buf[:size]]
    is in bounds exactly when the size the fill call reported is neither
    negative nor larger than the length of the buffer it was given.  Nothing
    checks this: outside these bounds the operation panics.  It also panics
    right after the discovery call, in [make], when a successful discovery
    reports a negative size or one above the allocation limit (a size of 0
    never reaches [make]). *)
Theorem fill_slice_in_bounds_iff {W} (P : Platform W) (prefix : string)
    (stripPrefix : slice string → slice string) (path attr : string) (w : W) :
  (∀ w1 r1 w2 r2 buf,
     plat_get P path (prefix +:+ attr) nil_slice w = (w1, r1) →
     err r1 = nil_error → 0 < sz r1 ≤ plat_max_alloc P →
     buf = mk_slice (replicate (Z.to_nat (sz r1)) x00) →
     plat_get P path (prefix +:+ attr) buf w1 = (w2, r2) →
     err r2 = nil_error →
     (result (exec P (Get prefix path attr) w) = panicked
      ↔ ¬ (0 ≤ sz r2 ≤ Z.of_nat (len buf))))
  ∧ (∀ w1 r1 w2 r2 buf,
       plat_list P path nil_slice w = (w1, r1) →
       err r1 = nil_error → 0 < sz r1 ≤ plat_max_alloc P →
       buf = mk_slice (replicate (Z.to_nat (sz r1)) x00) →
       plat_list P path buf w1 = (w2, r2) →
       err r2 = nil_error →
       (result (exec P (List stripPrefix path) w) = panicked
        ↔ ¬ (0 ≤ sz r2 ≤ Z.of_nat (len buf))))
  ∧ (∀ w1 r1,
       plat_get P path (prefix +:+ attr) nil_slice w = (w1, r1) →
       err r1 = nil_error → sz r1 ≠ 0 →
       sz r1 < 0 ∨ plat_max_alloc P < sz r1 →
       exec P (Get prefix path attr) w
       = mkRun w1 [call_get path (prefix +:+ attr) nil_slice] panicked)
  ∧ (∀ w1 r1,
       plat_list P path nil_slice w = (w1, r1) →
       err r1 = nil_error → sz r1 ≠ 0 →
       sz r1 < 0 ∨ plat_max_alloc P < sz r1 →
       exec P (List stripPrefix path) w
       = mkRun w1 [call_list path nil_slice] panicked).
Proof.
  assert (Hb : ∀ (a : Z) (b : byte) (c : Z), 0 < a →
            ((c <? 0) || (a <? c) = true
             ↔ ¬ (0 ≤ c ≤ Z.of_nat (length (replicate (Z.to_nat a) b))))).
  { intros a b c Ha. rewrite length_replicate, orb_true_iff, !Z.ltb_lt. lia. }
  split_and!.
  - intros w1 r1 w2 r2 buf H1 E1 [Hpos Hmax] -> H2 E2.
    rewrite exec_Get. simpl. rewrite H1, E1. simpl.
    destruct (Z.eqb_spec (sz r1) 0); [lia|].
    rewrite alloc_check_false by lia.
    rewrite H2, E2. simpl. unfold len. cbn [elems].
    rewrite <- (Hb _ x00 _ Hpos). by destruct (_ || _).
  - intros w1 r1 w2 r2 buf H1 E1 [Hpos Hmax] -> H2 E2.
    rewrite exec_List. simpl. rewrite H1, E1. simpl.
    destruct (Z.eqb_spec (sz r1) 0); [lia|].
    rewrite alloc_check_false by lia.
    rewrite H2, E2. simpl. unfold len. cbn [elems].
    rewrite <- (Hb _ x00 _ Hpos). by destruct (_ || _).
  - intros w1 r1 H1 E1 Hnz Hbad.
    rewrite exec_Get. simpl. rewrite H1, E1. simpl.
    destruct (Z.eqb_spec (sz r1) 0); [done|].
    by rewrite (alloc_check_true _ _ Hbad).
  - intros w1 r1 H1 E1 Hnz Hbad.
    rewrite exec_List. simpl. rewrite H1, E1. simpl.
    destruct (Z.eqb_spec (sz r1) 0); [done|].
    by rewrite (alloc_check_true _ _ Hbad).
Qed.

Lemma fill_slice_in_bounds_iff_witness :
  (result (exec overreporting (Get "user." "/tmp/f" "foo") tt) = panicked
   ↔ ¬ (0 ≤ 5 ≤ Z.of_nat (len (mk_slice (replicate (Z.to_nat 3) x00)))))
  ∧ exec huge_discovery (Get "user." "/tmp/f" "foo") tt
    = mkRun tt [call_get "/tmp/f" ("user." +:+ "foo") nil_slice] panicked.
Proof.
  split.
  - apply (proj1 (fill_slice_in_bounds_iff overreporting "user."
                    (λ names, names) "/tmp/f" "foo" tt)
             tt (mkFilled [] 3 nil_error)
             tt (mkFilled (list_byte_of_string "bar") 5 nil_error));
      [reflexivity|reflexivity|by vm_compute|reflexivity|reflexivity
      |reflexivity].
  - apply (proj1 (proj2 (proj2 (fill_slice_in_bounds_iff huge_discovery "user."
                                  (λ names, names) "/tmp/f" "foo" tt)))
             tt (mkFilled [] (2 ^ 62) nil_error));
      [reflexivity|reflexivity|by vm_compute|right; by vm_compute].
Defined.

(** ** Round trip *)

Lemma filled_buffer_exact (v : list byte) :
  elems (filled_buffer (Z.of_nat (length v)) v) = v.
Proof.
  unfold filled_buffer, overwrite. cbn [elems].
  rewrite length_replicate, Nat2Z.id.
  rewrite drop_ge by (rewrite length_replicate; lia).
  rewrite app_nil_r. apply take_ge. lia.
Qed.

(** The in-memory platform stores what [set] wrote. *)
Lemma mem_platform_stores (absent : Z) :
  stores (mem_platform absent) (λ w path attr v, w !! (path, attr) = Some v).
Proof.
  split.
  - intros w w' path attr data [= <-]. apply lookup_insert_eq.
  - intros w path attr v dest Hv Hd. simpl. rewrite Hv.
    eexists _, _. split; [done|]. split; [done|].
    unfold fill. by destruct (decide (len dest = 0%nat)).
  - intros w path attr v dest Hv Hpos Hle. simpl. rewrite Hv.
    eexists _, _. split; [done|]. split; [done|].
    unfold fill. destruct (decide (len dest = 0%nat)); [lia|].
    by destruct (decide (length v ≤ len dest)%nat).
Qed.

(** C4. On an adapter that stores what a successful [set] wrote and reads it
    back as section 4.1 says, a [Set(path, attr, value)] that returns nil
    followed at once by [Get(path, attr)] yields a non-nil slice holding
    exactly the bytes of [value], and a nil error.  [value] is a slice of
    the running program, so its length is within the allocation limit. *)
Theorem Set_Get_round_trip {W} (P : Platform W)
    (holds : W → string → string → list byte → Prop)
    (prefix path attr : string) (value : slice byte) (w : W) :
  stores P holds →
  Z.of_nat (len value) ≤ plat_max_alloc P →
  result (exec P (Set_ prefix path attr value) w) = returned nil_error →
  result (exec P (Get prefix path attr)
            (final (exec P (Set_ prefix path attr value) w)))
  = returned (mk_slice (elems value), nil_error).
Proof.
  intros [Hset Hsize Hvalue] Hlimit. unfold len in Hlimit.
  rewrite exec_Get, exec_Set. cbv zeta.
  destruct (plat_set P path (prefix +:+ attr) value 0 w) as [w1 e] eqn:Es.
  cbn [final result]. intros He.
  assert (e = nil_error) as -> by (by destruct e).
  apply Hset in Es. clear He.
  destruct (Hsize w1 path (prefix +:+ attr) (elems value) nil_slice Es eq_refl)
    as (w2 & r1 & -> & Hw2 & S1 & E1).
  rewrite E1, S1. cbn [non_nil].
  destruct (Z.eqb_spec (Z.of_nat (length (elems value))) 0) as [Hz|Hz].
  { cbn [result]. destruct (elems value); [done|simpl in Hz; lia]. }
  rewrite alloc_check_false by lia.
  destruct (Hvalue w2 path (prefix +:+ attr) (elems value)
              (mk_slice (replicate (Z.to_nat (Z.of_nat (length (elems value)))) x00))
              Hw2)
    as (w3 & r2 & -> & _ & Wr & S2 & E2).
  { unfold len. cbn [elems]. rewrite length_replicate. lia. }
  { unfold len. cbn [elems]. rewrite length_replicate. lia. }
  rewrite E2, S2, Wr. cbn [non_nil].
  rewrite Z.ltb_irrefl.
  destruct (Z.ltb_spec (Z.of_nat (length (elems value))) 0); [lia|].
  cbn [orb result]. do 3 f_equal.
  rewrite filled_buffer_exact, Nat2Z.id. by apply take_ge.
Qed.

Lemma Set_Get_round_trip_witness :
  result (exec (mem_platform 61) (Get "user." "/tmp/f" "foo")
            (final (exec (mem_platform 61)
                      (Set_ "user." "/tmp/f" "foo"
                         (mk_slice (list_byte_of_string "bar"))) ∅)))
  = returned (mk_slice (list_byte_of_string "bar"), nil_error).
Proof.
  apply (Set_Get_round_trip (mem_platform 61) _ "user." "/tmp/f" "foo"
           (mk_slice (list_byte_of_string "bar")) ∅ (mem_platform_stores 61)).
  - by vm_compute.
  - reflexivity.
Defined.

(** ** Further properties of the decoder *)

Section DecoderMore.

Implicit Types (buf cur rest pre : list byte).

(** The loop with bounds checks, started in the middle of the buffer with
    an offset that is not past the index. *)
Lemma range_loop_checked rest : ∀ pre offset result,
  (offset ≤ length pre)%nat →
  range_loop (scan_step_checked (pre ++ rest)) (length pre) rest
    (returned (offset, result))
  = returned (range_loop (scan_step (pre ++ rest)) (length pre) rest
                (offset, result)).
Proof.
  induction rest as [|b rest IH]; intros pre offset result Ho; [done|].
  cbn [range_loop scan_step_checked scan_step outcome_bind].
  specialize (IH (pre ++ [b])).
  rewrite <- !app_assoc, length_app in IH. cbn [app length] in IH.
  replace (length pre + 1)%nat with (S (length pre)) in IH by lia.
  destruct (decide (b = x00)).
  - unfold sub_slice_checked.
    rewrite decide_True by (rewrite length_app; simpl; lia).
    cbn [outcome_bind]. apply IH. lia.
  - apply IH. lia.
Qed.

Lemma split_nul_app a : ∀ cur b,
  split_nul cur (a ++ b) = split_nul cur a ++ split_nul (unterminated cur a) b.
Proof.
  induction a as [|x a IH]; intros cur b; simpl; [done|].
  destruct (decide (x = x00)); simpl; by rewrite IH.
Qed.

Lemma unterminated_nul cur a : unterminated cur (a ++ [x00]) = [].
Proof.
  revert cur. induction a as [|x a IH]; intros cur; simpl.
  - by destruct (decide (x00 = x00)).
  - by destruct (decide (x = x00)).
Qed.

Lemma elems_names_slice (names : list string) :
  elems (names_slice names) = names.
Proof. by destruct names. Qed.

Lemma elems_nullTermToStrings (b : slice byte) :
  elems (nullTermToStrings b)
  = map string_of_list_byte (split_nul [] (elems b)).
Proof. by rewrite nullTermToStrings_split, elems_names_slice. Qed.

End DecoderMore.

(** X1. The slice expression [buf[offset:index]] of [nullTermToStrings] is
    in bounds at every iteration: with Go's bounds checks the decoder never
    panics and returns what the unchecked loop computes. *)
Theorem nullTermToStrings_never_panics (buf : slice byte) :
  nullTermToStrings_checked buf = returned (nullTermToStrings buf).
Proof.
  unfold nullTermToStrings_checked, nullTermToStrings.
  pose proof (range_loop_checked (elems buf) [] 0%nat nil_slice) as H.
  simpl in H. by rewrite H.
Qed.

(** X2. Decoding distributes over a buffer cut right after a zero byte: the
    names of [a ++ [0] ++ b] are the names of [a ++ [0]] followed by the
    names of [b]. *)
Theorem nullTermToStrings_app (a b : list byte) :
  elems (nullTermToStrings (mk_slice ((a ++ [x00]) ++ b)))
  = elems (nullTermToStrings (mk_slice (a ++ [x00])))
    ++ elems (nullTermToStrings (mk_slice b)).
Proof.
  rewrite !elems_nullTermToStrings. cbn [elems].
  by rewrite split_nul_app, unterminated_nul, map_app.
Qed.

(** X3. Decoding a truncated buffer yields a prefix of the names of the
    whole buffer: cutting a name list short never invents or reorders
    names. *)
Theorem nullTermToStrings_take (n : nat) (buf : list byte) :
  elems (nullTermToStrings (mk_slice (take n buf)))
  `prefix_of` elems (nullTermToStrings (mk_slice buf)).
Proof.
  rewrite !elems_nullTermToStrings. cbn [elems].
  rewrite <- (take_drop n buf) at 2. rewrite split_nul_app, map_app.
  by apply prefix_app_r.
Qed.

(** X4. No decoded name contains a zero byte, and the decoded names, each
    followed by a zero byte, are the buffer up to and including its last
    zero byte: the buffer is these bytes followed by a tail without a zero
    byte. *)
Theorem nullTermToStrings_rejoin (buf : slice byte) :
  Forall (λ n, nul_free (list_byte_of_string n)) (elems (nullTermToStrings buf))
  ∧ ∃ tl, nul_free tl
          ∧ elems buf = nul_joined (elems (nullTermToStrings buf)) ++ tl.
Proof.
  rewrite elems_nullTermToStrings.
  destruct (split_nul_spec [] (elems buf) (Forall_nil_2 _)) as (H1 & H2 & H3 & _).
  split.
  - apply Forall_map. eapply Forall_impl; [exact H1|].
    intros seg Hs. simpl. by rewrite list_byte_of_string_of_list_byte.
  - exists (unterminated [] (elems buf)). split; [done|].
    simpl in H3. rewrite H3 at 1. unfold terminated, nul_joined. f_equal.
    rewrite map_map. f_equal. apply map_ext. intros seg.
    by rewrite list_byte_of_string_of_list_byte.
Qed.

Lemma decode_nul_joined (names : list string) (tl : list byte) :
  Forall (λ n, nul_free (list_byte_of_string n)) names → nul_free tl →
  nullTermToStrings (mk_slice (nul_joined names ++ tl)) = names_slice names.
Proof.
  intros Hn Ht. rewrite nullTermToStrings_split. cbn [elems].
  unfold nul_joined.
  rewrite <- (map_map list_byte_of_string (λ s, s ++ [x00])).
  fold (terminated (map list_byte_of_string names) tl).
  rewrite split_nul_terminated; [|constructor|by apply Forall_map|done].
  assert (Hid : ∀ l : list string,
            map string_of_list_byte (map list_byte_of_string l) = l).
  { induction l as [|s l IH]; simpl; [done|].
    by rewrite string_of_list_byte_of_string, IH. }
  destruct names as [|n names]; [done|].
  rewrite <- (Hid (n :: names)) at 2. done.
Qed.

(** X5. Decoding the encoding: for names without a zero byte, the decoder
    applied to the names, each followed by a zero byte, returns these names
    in order, whatever unterminated tail follows. *)
Theorem nullTermToStrings_nul_joined (names : list string) (tl : list byte) :
  Forall (λ n, nul_free (list_byte_of_string n)) names → nul_free tl →
  elems (nullTermToStrings (mk_slice (nul_joined names ++ tl))) = names.
Proof.
  intros Hn Ht. rewrite decode_nul_joined by done. apply elems_names_slice.
Qed.

Lemma nullTermToStrings_nul_joined_witness :
  elems (nullTermToStrings
           (mk_slice (nul_joined ["user.a"; "user.b"]%string
                      ++ list_byte_of_string "xy")))
  = ["user.a"; "user.b"]%string.
Proof.
  apply (nullTermToStrings_nul_joined ["user.a"; "user.b"]%string
           (list_byte_of_string "xy")).
  - repeat constructor; vm_compute; discriminate.
  - repeat constructor; vm_compute; discriminate.
Defined.

(** ** Further properties of the facade *)

(** X6. [Get] issues the discovery call on the prefixed name with a nil
    destination, and then the fill call exactly when discovery succeeded
    with a positive size that [make] can allocate, on the same name with a
    zeroed buffer of exactly that size.  It issues no other adapter call. *)
Theorem Get_calls {W} (P : Platform W) (prefix path attr : string) (w : W) :
  trace (exec P (Get prefix path attr) w)
  = call_get path (prefix +:+ attr) nil_slice ::
    (if non_nil (err (snd (plat_get P path (prefix +:+ attr) nil_slice w)))
        || (sz (snd (plat_get P path (prefix +:+ attr) nil_slice w)) <=? 0)
        || (plat_max_alloc P
            <? sz (snd (plat_get P path (prefix +:+ attr) nil_slice w)))
     then []
     else [call_get path (prefix +:+ attr)
             (mk_slice
                (replicate
                   (Z.to_nat
                      (sz (snd (plat_get P path (prefix +:+ attr) nil_slice w))))
                   x00))]).
Proof.
  rewrite exec_Get. cbv zeta.
  destruct (plat_get P path (prefix +:+ attr) nil_slice w) as [w1 r1].
  cbn [snd]. destruct (non_nil (err r1)); [done|]. cbn [orb].
  destruct (Z.eqb_spec (sz r1) 0) as [->|Hz]; [done|].
  destruct (Z.ltb_spec (sz r1) 0), (Z.leb_spec (sz r1) 0); try lia; [done|].
  cbn [orb]. destruct (plat_max_alloc P <? sz r1); [done|].
  destruct (plat_get P path (prefix +:+ attr) _ w1) as [w2 r2].
  destruct (non_nil (err r2)); [done|]. by destruct (_ || _).
Qed.

(** X7. [List] issues the discovery call with a nil destination, and then
    the fill call exactly when discovery succeeded with a positive size that
    [make] can allocate, with a zeroed buffer of exactly that size.  It
    issues no other adapter call. *)
Theorem List_calls {W} (P : Platform W)
    (stripPrefix : slice string → slice string) (path : string) (w : W) :
  trace (exec P (List stripPrefix path) w)
  = call_list path nil_slice ::
    (if non_nil (err (snd (plat_list P path nil_slice w)))
        || (sz (snd (plat_list P path nil_slice w)) <=? 0)
        || (plat_max_alloc P <? sz (snd (plat_list P path nil_slice w)))
     then []
     else [call_list path
             (mk_slice
                (replicate (Z.to_nat (sz (snd (plat_list P path nil_slice w))))
                   x00))]).
Proof.
  rewrite exec_List. cbv zeta.
  destruct (plat_list P path nil_slice w) as [w1 r1].
  cbn [snd]. destruct (non_nil (err r1)); [done|]. cbn [orb].
  destruct (Z.eqb_spec (sz r1) 0) as [->|Hz]; [done|].
  destruct (Z.ltb_spec (sz r1) 0), (Z.leb_spec (sz r1) 0); try lia; [done|].
  cbn [orb]. destruct (plat_max_alloc P <? sz r1); [done|].
  destruct (plat_list P path _ w1) as [w2 r2].
  destruct (non_nil (err r2)); [done|]. by destruct (_ || _).
Qed.

(** X8. Whenever [Get] returns, the value is the nil slice exactly when the
    error is non-nil: a failure never carries bytes, and a success is never
    the nil slice, not even for an empty value. *)
Theorem Get_nil_iff_error {W} (P : Platform W) (prefix path attr : string)
    (w : W) (v : slice byte) (e : error) :
  result (exec P (Get prefix path attr) w) = returned (v, e) →
  is_nil v = non_nil e.
Proof.
  rewrite exec_Get. cbv zeta.
  destruct (plat_get P path (prefix +:+ attr) nil_slice w) as [w1 r1].
  destruct (non_nil (err r1)); [by intros [= <- <-]|].
  destruct (sz r1 =? 0); [by intros [= <- <-]|].
  destruct ((sz r1 <? 0) || (plat_max_alloc P <? sz r1)); [done|]. cbv zeta.
  destruct (plat_get P path (prefix +:+ attr) _ w1) as [w2 r2].
  destruct (non_nil (err r2)); [by intros [= <- <-]|].
  destruct (_ || _); [done|by intros [= <- <-]].
Qed.

Lemma Get_nil_iff_error_witness :
  is_nil (mk_slice (list_byte_of_string "bar")) = non_nil nil_error.
Proof.
  apply (Get_nil_iff_error shrinking "user." "/tmp/f" "foo" tt).
  reflexivity.
Defined.

(** X9. A failure of either adapter call ends [Get] with the nil slice and
    the wrapper of that very error: a failed discovery after one call, a
    failed fill call (reached when [make] can allocate the discovered size)
    after two, the size discovered before being discarded. *)
Theorem Get_failure_paths {W} (P : Platform W) (prefix path attr : string)
    (w : W) :
  (∀ w1 r1,
     plat_get P path (prefix +:+ attr) nil_slice w = (w1, r1) →
     err r1 ≠ nil_error →
     exec P (Get prefix path attr) w
     = mkRun w1 [call_get path (prefix +:+ attr) nil_slice]
         (returned (nil_slice,
                    new_XAttrError "getxattr" path (prefix +:+ attr) (err r1))))
  ∧ (∀ w1 r1 w2 r2 buf,
       plat_get P path (prefix +:+ attr) nil_slice w = (w1, r1) →
       err r1 = nil_error → 0 < sz r1 ≤ plat_max_alloc P →
       buf = mk_slice (replicate (Z.to_nat (sz r1)) x00) →
       plat_get P path (prefix +:+ attr) buf w1 = (w2, r2) →
       err r2 ≠ nil_error →
       exec P (Get prefix path attr) w
       = mkRun w2 [call_get path (prefix +:+ attr) nil_slice;
                   call_get path (prefix +:+ attr) buf]
           (returned (nil_slice,
                      new_XAttrError "getxattr" path (prefix +:+ attr) (err r2)))).
Proof.
  split.
  - intros w1 r1 H1 E1%non_nil_true. rewrite exec_Get. cbv zeta.
    by rewrite H1, E1.
  - intros w1 r1 w2 r2 buf H1 E1 Hpos -> H2 E2%non_nil_true.
    rewrite exec_Get. cbv zeta. rewrite H1, E1. cbn [non_nil].
    destruct (Z.eqb_spec (sz r1) 0); [lia|].
    rewrite alloc_check_false by lia.
    by rewrite H2, E2.
Qed.

Lemma Get_failure_paths_witness :
  exec failing_fill (Get "user." "/tmp/f" "foo") tt
  = mkRun tt [call_get "/tmp/f" ("user." +:+ "foo") nil_slice;
              call_get "/tmp/f" ("user." +:+ "foo")
                (mk_slice (replicate (Z.to_nat 3) x00))]
      (returned (nil_slice,
                 new_XAttrError "getxattr" "/tmp/f" ("user." +:+ "foo")
                   (Errno EIO))).
Proof.
  apply (proj2 (Get_failure_paths failing_fill "user." "/tmp/f" "foo" tt)
           tt (mkFilled [] 3 nil_error) tt (mkFilled [] (-1) (Errno EIO)));
    [reflexivity|reflexivity|by vm_compute|reflexivity|reflexivity|discriminate].
Defined.

(** X10. Every non-nil error returned by [List] is a pointer to an
    [XAttrError] with [Op] "listxattr", the caller's path, an empty [Attr]
    and the adapter's non-nil error, and it comes with the nil slice of
    names. *)
Theorem List_error_shape {W} (P : Platform W)
    (stripPrefix : slice string → slice string) (path : string) (w : W)
    (names : slice string) (e : error) :
  result (exec P (List stripPrefix path) w) = returned (names, e) →
  e ≠ nil_error →
  wraps e "listxattr" path EmptyString ∧ names = nil_slice.
Proof.
  rewrite exec_List. cbv zeta.
  destruct (plat_list P path nil_slice w) as [w1 r1].
  destruct (non_nil (err r1)) eqn:N1.
  { intros [= <- <-] _. split; [by apply wraps_new|done]. }
  destruct (sz r1 =? 0); [by intros [= <- <-]|].
  destruct ((sz r1 <? 0) || (plat_max_alloc P <? sz r1)); [done|]. cbv zeta.
  destruct (plat_list P path _ w1) as [w2 r2].
  destruct (non_nil (err r2)) eqn:N2.
  { intros [= <- <-] _. split; [by apply wraps_new|done]. }
  destruct (_ || _); [done|by intros [= <- <-]].
Qed.

Lemma List_error_shape_witness :
  wraps (new_XAttrError "listxattr" "/tmp/f" EmptyString (Errno EIO))
        "listxattr" "/tmp/f" EmptyString
  ∧ @nil_slice string = nil_slice.
Proof.
  apply (List_error_shape failing_fill (λ names, names) "/tmp/f" tt).
  - reflexivity.
  - discriminate.
Defined.

Lemma take_filled_buffer (size : Z) (w : list byte) :
  (length w ≤ Z.to_nat size)%nat →
  take (length w) (elems (filled_buffer size w)) = w.
Proof.
  intros Hle. unfold filled_buffer, overwrite. cbn [elems].
  rewrite length_replicate, take_take.
  replace (length w `min` Z.to_nat size)%nat with (length w) by lia.
  by rewrite take_app_length.
Qed.

(** X11. When discovery succeeds with a size [make] can allocate, the fill
    call succeeds and the fill call wrote
    the names, each followed by a zero byte, and reported the number of
    bytes written, [List] returns [stripPrefix] of exactly these names, in
    the order written, with a nil error, also when the buffer discovered was
    larger. *)
Theorem List_returns_written_names {W} (P : Platform W)
    (stripPrefix : slice string → slice string) (path : string)
    (w w1 w2 : W) (r1 r2 : filled) (names : list string) :
  plat_list P path nil_slice w = (w1, r1) →
  err r1 = nil_error → 0 < sz r1 ≤ plat_max_alloc P →
  plat_list P path (mk_slice (replicate (Z.to_nat (sz r1)) x00)) w1 = (w2, r2) →
  err r2 = nil_error →
  Forall (λ n, nul_free (list_byte_of_string n)) names →
  written r2 = nul_joined names →
  sz r2 = Z.of_nat (length (written r2)) → sz r2 ≤ sz r1 →
  result (exec P (List stripPrefix path) w)
  = returned (stripPrefix (names_slice names), nil_error).
Proof.
  intros H1 E1 Hpos H2 E2 Hn Hw Hs Hle.
  rewrite exec_List. cbv zeta. rewrite H1, E1. cbn [non_nil].
  destruct (Z.eqb_spec (sz r1) 0); [lia|].
  rewrite alloc_check_false by lia.
  rewrite H2, E2. cbn [non_nil].
  destruct (Z.ltb_spec (sz r2) 0); [lia|].
  destruct (Z.ltb_spec (sz r1) (sz r2)); [lia|].
  cbn [orb result]. do 3 f_equal.
  rewrite Hs, Nat2Z.id, take_filled_buffer by lia.
  rewrite Hw, <- (app_nil_r (nul_joined names)).
  apply decode_nul_joined; [done|constructor].
Qed.

Lemma List_returns_written_names_witness :
  result (exec shrinking (List (λ names, names) "/tmp/f") tt)
  = returned (names_slice ["a"%string], nil_error).
Proof.
  apply (List_returns_written_names shrinking (λ names, names) "/tmp/f"
           tt tt tt (mkFilled [] 5 nil_error)
           (mkFilled (list_byte_of_string "a" ++ [x00]) 2 nil_error)
           ["a"%string]);
    try reflexivity; try (by vm_compute); try (simpl; lia).
  repeat constructor; vm_compute; discriminate.
Defined.

(** X12. [Remove] prepends the namespace prefix to the attribute name once
    and issues exactly one adapter call, [remove] on that name.  It returns
    nil when the call succeeds and otherwise a pointer to an [XAttrError]
    with [Op] "removexattr" that carries the adapter's error. *)
Theorem Remove_single_call {W} (P : Platform W) (prefix path attr : string)
    (w : W) :
  trace (exec P (Remove prefix path attr) w)
  = [call_remove path (prefix +:+ attr)]
  ∧ final (exec P (Remove prefix path attr) w)
    = fst (plat_remove P path (prefix +:+ attr) w)
  ∧ result (exec P (Remove prefix path attr) w)
    = returned
        (match snd (plat_remove P path (prefix +:+ attr) w) with
         | nil_error => nil_error
         | e => ptr_XAttrError
                  (Some (mkXAttrError "removexattr" path (prefix +:+ attr) e))
         end).
Proof.
  rewrite exec_Remove. cbv zeta.
  destruct (plat_remove P path (prefix +:+ attr) w) as [w1 e].
  by destruct e.
Qed.

Lemma IsNotExist_wrapped isNotExist_code op path attr code absent :
  isNotExist_code = (λ e : option XAttrError,
    match e with
    | None => panicked
    | Some x => returned (eq_Errno (Err x) absent)
    end) →
  IsNotExist isNotExist_code (new_XAttrError op path attr (Errno code))
  = returned (code =? absent).
Proof. by intros ->. Qed.

(** X13. When the adapter fails with an error number, the error that [Get]
    (on a failed discovery) and [Remove] return is classified by
    [IsNotExist] without a panic: on Linux as absent exactly when the number
    is [ENODATA], on Darwin exactly when it is [ENOATTR]. *)
Theorem adapter_errno_is_classified {W} (P : Platform W)
    (prefix path attr : string) (w : W) (code : Z) :
  (∀ w1 r1,
     plat_get P path (prefix +:+ attr) nil_slice w = (w1, r1) →
     err r1 = Errno code →
     ∃ e, result (exec P (Get prefix path attr) w) = returned (nil_slice, e)
          ∧ IsNotExist Linux.isNotExist e = returned (code =? Linux.ENODATA)
          ∧ IsNotExist Darwin.isNotExist e = returned (code =? Darwin.ENOATTR))
  ∧ (∀ w1,
       plat_remove P path (prefix +:+ attr) w = (w1, Errno code) →
       ∃ e, result (exec P (Remove prefix path attr) w) = returned e
            ∧ IsNotExist Linux.isNotExist e = returned (code =? Linux.ENODATA)
            ∧ IsNotExist Darwin.isNotExist e = returned (code =? Darwin.ENOATTR)).
Proof.
  split.
  - intros w1 r1 H1 E1. rewrite exec_Get. cbv zeta. rewrite H1, E1.
    cbn [non_nil result]. eexists. split; [done|].
    split; by apply IsNotExist_wrapped.
  - intros w1 H1. rewrite exec_Remove. cbv zeta. rewrite H1.
    cbn [non_nil result]. eexists. split; [done|].
    split; by apply IsNotExist_wrapped.
Qed.

Lemma adapter_errno_is_classified_witness :
  ∃ e, result (exec (mem_platform 61) (Get "user." "/tmp/f" "foo") ∅)
       = returned (nil_slice, e)
       ∧ IsNotExist Linux.isNotExist e = returned (61 =? Linux.ENODATA)
       ∧ IsNotExist Darwin.isNotExist e = returned (61 =? Darwin.ENOATTR).
Proof.
  apply (proj1 (adapter_errno_is_classified (mem_platform 61) "user."
                  "/tmp/f" "foo" ∅ 61) ∅ (mkFilled [] (-1) (Errno 61)));
    reflexivity.
Defined.

(** X14. The message of the error that [Get] returns on a failed discovery
    is "getxattr", the path, the attribute name with the prefix prepended,
    a colon and the message of the adapter's error, separated by single
    spaces; producing it panics only if the adapter's own message does. *)
Theorem Get_error_message {W} (P : Platform W) (prefix path attr : string)
    (w w1 : W) (r1 : filled) (errno_text : Z → string) (text : string) :
  plat_get P path (prefix +:+ attr) nil_slice w = (w1, r1) →
  Error errno_text (err r1) = returned text →
  ∃ e, result (exec P (Get prefix path attr) w) = returned (nil_slice, e)
       ∧ Error errno_text e
         = returned ("getxattr " +:+ path +:+ " " +:+ (prefix +:+ attr)
                     +:+ ": " +:+ text).
Proof.
  intros H1 Ht. rewrite exec_Get. cbv zeta. rewrite H1.
  assert (non_nil (err r1) = true) as -> by (by destruct (err r1)).
  eexists. split; [done|]. simpl. by rewrite Ht.
Qed.

Lemma Get_error_message_witness :
  ∃ e, result (exec (mem_platform 61) (Get "user." "/tmp/f" "foo") ∅)
       = returned (nil_slice, e)
       ∧ Error (λ _, "no data available"%string) e
         = returned ("getxattr " +:+ "/tmp/f" +:+ " " +:+ ("user." +:+ "foo")
                     +:+ ": " +:+ "no data available").
Proof.
  apply (Get_error_message (mem_platform 61) "user." "/tmp/f" "foo" ∅ ∅
           (mkFilled [] (-1) (Errno 61)));
    reflexivity.
Defined.

(** X15. When discovery succeeds with a size [make] can allocate, the fill
    call succeeds and the fill call reports
    the number of bytes it wrote, [Get] returns exactly the bytes written
    and a nil error, also when the buffer discovered was larger: none of the
    zero bytes the buffer was made of is returned. *)
Theorem Get_returns_written_bytes {W} (P : Platform W)
    (prefix path attr : string) (w w1 w2 : W) (r1 r2 : filled) :
  plat_get P path (prefix +:+ attr) nil_slice w = (w1, r1) →
  err r1 = nil_error → 0 < sz r1 ≤ plat_max_alloc P →
  plat_get P path (prefix +:+ attr)
    (mk_slice (replicate (Z.to_nat (sz r1)) x00)) w1 = (w2, r2) →
  err r2 = nil_error →
  sz r2 = Z.of_nat (length (written r2)) → sz r2 ≤ sz r1 →
  result (exec P (Get prefix path attr) w)
  = returned (mk_slice (written r2), nil_error).
Proof.
  intros H1 E1 Hpos H2 E2 Hs Hle.
  rewrite exec_Get. cbv zeta. rewrite H1, E1. cbn [non_nil].
  destruct (Z.eqb_spec (sz r1) 0); [lia|].
  rewrite alloc_check_false by lia.
  rewrite H2, E2. cbn [non_nil].
  destruct (Z.ltb_spec (sz r2) 0); [lia|].
  destruct (Z.ltb_spec (sz r1) (sz r2)); [lia|].
  cbn [orb result]. do 3 f_equal.
  by rewrite Hs, Nat2Z.id, take_filled_buffer by lia.
Qed.

Lemma Get_returns_written_bytes_witness :
  result (exec shrinking (Get "user." "/tmp/f" "foo") tt)
  = returned (mk_slice (list_byte_of_string "bar"), nil_error).
Proof.
  apply (Get_returns_written_bytes shrinking "user." "/tmp/f" "foo"
           tt tt tt (mkFilled [] 5 nil_error)
           (mkFilled (list_byte_of_string "bar") 3 nil_error));
    try reflexivity; try (by vm_compute); simpl; lia.
Defined.
